(** * core::Config — the typed configuration store of core/utils.hpp

    A shallow embedding of [class Config] (core/utils.hpp, core/utils.cpp)
    and of the part of the C++ type system its run-time type check depends
    on: reference removal, cv-qualification, array-to-pointer decay,
    [typeid] and [std::type_index] comparison.  The other two utilities of
    the header, [RaiiWrapper] and [Logger], follow the store. *)

From Stdlib Require Import ZArith.
From Stdlib.Floats Require Import SpecFloat.
From stdpp Require Import gmap strings list fin_maps.

(** ** The C++ types the store can be instantiated with *)

Module Cpp.

(** Fundamental and library types used with the store in this repository
    (utils.cpp instantiates [int], [std::string], [double], [bool]). *)
Inductive builtin : Set :=
| b_void | b_bool | b_char | b_int | b_double | b_string.

(** A cv-qualifier: [const], [volatile], both or none. *)
Record cv_qual : Set := CV { is_const : bool; is_volatile : bool }.

Definition unqual : cv_qual := CV false false.
Definition q_const : cv_qual := CV true false.
Definition q_volatile : cv_qual := CV false true.

(** Object types in canonical form: the qualifier of a scalar or of a
    pointer sits on its node; an array carries no qualifier of its own (in
    C++ qualifying an array qualifies its elements).  Function types are
    outside this fragment. *)
Inductive obj_type : Set :=
| Scalar (q : cv_qual) (b : builtin)
| Pointer (q : cv_qual) (pointee : obj_type)
| Array (elem : obj_type) (extent : N).

(** A template argument [T]: an object type or a reference to one. *)
Inductive cpp_type : Set :=
| Obj (o : obj_type)
| LRef (o : obj_type)
| RRef (o : obj_type).

#[global] Instance builtin_eq_dec : EqDecision builtin.
Proof. solve_decision. Defined.
#[global] Instance cv_qual_eq_dec : EqDecision cv_qual.
Proof. solve_decision. Defined.
#[global] Instance obj_type_eq_dec : EqDecision obj_type.
Proof. solve_decision. Defined.
#[global] Instance cpp_type_eq_dec : EqDecision cpp_type.
Proof. solve_decision. Defined.

(** [std::remove_reference<T>::type] *)
Definition remove_reference (T : cpp_type) : obj_type :=
  match T with
  | Obj o | LRef o | RRef o => o
  end.

(** [std::remove_cv<U>::type]; on an array it unqualifies the elements. *)
Fixpoint remove_cv (U : obj_type) : obj_type :=
  match U with
  | Scalar _ b => Scalar unqual b
  | Pointer _ p => Pointer unqual p
  | Array e n => Array (remove_cv e) n
  end.

(** [std::decay<T>::type]: drop the reference, then turn an array into a
    pointer to its element, and otherwise drop the top-level cv-qualifier. *)
Definition decay (T : cpp_type) : obj_type :=
  let U := remove_reference T in
  match U with
  | Array e _ => Pointer unqual e
  | _ => remove_cv U
  end.

Definition is_array (U : obj_type) : bool :=
  match U with
  | Array _ _ => true
  | _ => false
  end.

(** [U] with the cv-qualifier [q] put on it.  On a scalar or a pointer it
    replaces the top-level qualifier; an array is qualified through its
    elements. *)
Fixpoint with_cv (q : cv_qual) (U : obj_type) : obj_type :=
  match U with
  | Scalar _ b => Scalar q b
  | Pointer _ p => Pointer q p
  | Array e n => Array (with_cv q e) n
  end.

(** [std::type_index]: a run-time token for a type, compared by type
    identity. *)
Record type_index : Set := TypeIndex { ti_type : obj_type }.

#[global] Instance type_index_eq_dec : EqDecision type_index.
Proof. solve_decision. Defined.

(** [std::type_index(typeid(T))]: [typeid] of a reference type designates
    the referenced type, and top-level cv-qualifiers are ignored. *)
Definition typeid (T : cpp_type) : type_index :=
  TypeIndex (remove_cv (remove_reference T)).

(** The template arguments the tests and utils.cpp instantiate the store
    with, and some qualified variants of them. *)
Definition T_int : cpp_type := Obj (Scalar unqual b_int).
Definition T_double : cpp_type := Obj (Scalar unqual b_double).
Definition T_bool : cpp_type := Obj (Scalar unqual b_bool).
Definition T_string : cpp_type := Obj (Scalar unqual b_string).
Definition T_const_int : cpp_type := Obj (Scalar q_const b_int).
Definition T_int_lref : cpp_type := LRef (Scalar unqual b_int).
Definition T_const_int_lref : cpp_type := LRef (Scalar q_const b_int).
Definition T_const_string_lref : cpp_type := LRef (Scalar q_const b_string).

(** A string literal of eight characters is a [const char (&)[8]]; a
    writable buffer of that size is a [char (&)[8]]. *)
Definition T_literal8 : cpp_type := LRef (Array (Scalar q_const b_char) 8).
Definition T_buffer8 : cpp_type := LRef (Array (Scalar unqual b_char) 8).
Definition T_const_char_ptr : cpp_type := Obj (Pointer unqual (Scalar q_const b_char)).
Definition T_char_ptr : cpp_type := Obj (Pointer unqual (Scalar unqual b_char)).

(** *** Values *)

(** The values of an object of each type.  An [int] is read as its
    mathematical value, a [double] as an IEEE-754 datum, a pointer as an
    address; [void] has no values. *)
Definition den_builtin (b : builtin) : Type :=
  match b with
  | b_void => Empty_set
  | b_bool => bool
  | b_char => Ascii.ascii
  | b_int => Z
  | b_double => spec_float
  | b_string => string
  end.

Fixpoint den (o : obj_type) : Type :=
  match o with
  | Scalar _ b => den_builtin b
  | Pointer _ _ => N
  | Array e _ => list (den e)
  end.

(** What a [void*] points to in the free store: an object together with the
    type it was created with. *)
Record object : Type := Object { dyn_type : obj_type; dyn_val : den dyn_type }.

(** *** Exceptions and outcomes *)

Inductive exception : Set :=
| runtime_error (what : string).

(** [s.c_str()] read as a C string: the characters before the first NUL. *)
Fixpoint c_str (s : string) : string :=
  match s with
  | EmptyString => EmptyString
  | String a rest =>
      if Ascii.eqb a Ascii.zero then EmptyString else String a (c_str rest)
  end.

(** [std::runtime_error(what_arg)] for a [std::string] argument: [what()]
    is a C string, equal to [what_arg.c_str()]. *)
Definition runtime_error_of (what_arg : string) : exception :=
  runtime_error (c_str what_arg).

(** The outcome of a call: a normal return, a thrown exception, or
    undefined behaviour (dereferencing a null pointer, or a pointer cast to
    a type the object does not have). *)
Inductive outcome (A : Type) : Type :=
| Returns (a : A)
| Throws (e : exception)
| Undefined.

Arguments Returns {A} a.
Arguments Throws {A} e.
Arguments Undefined {A}.

(** [std::make_shared<D>(value)] *)
Definition make_shared (D : obj_type) (value : den D) : option object :=
  Some (Object D value).

(** [*static_cast<D*>(p.get())] for [p : std::shared_ptr<void>] *)
Definition deref_static_cast (D : obj_type) (p : option object) : outcome (den D) :=
  match p with
  | None => Undefined
  | Some (Object o v) =>
      match decide (o = D) with
      | left e => Returns (eq_rect o den v D e)
      | right _ => Undefined
      end
  end.

End Cpp.

Export Cpp.

(** ** namespace core *)

Module core.

(** *** Config::ConfigValue *)

Record ConfigValue : Type := MkConfigValue {
  data_ : option object;      (* std::shared_ptr<void> *)
  type_ : type_index          (* std::type_index *)
}.

(** [ConfigValue()] *)
Definition ConfigValue_default : ConfigValue :=
  {| data_ := None; type_ := typeid (Obj (Scalar unqual b_void)) |}.

(** [template<typename T> ConfigValue(T&& value)].  The argument is given
    as the value the new [DecayedT] object is initialised with. *)
Definition ConfigValue_of (T : cpp_type) (value : den (decay T)) : ConfigValue :=
  let DecayedT := decay T in
  {| type_ := typeid (Obj DecayedT);
     data_ := make_shared DecayedT value |}.

(** The two [what()] strings the store throws with. *)
Definition TypeMismatchError : exception :=
  runtime_error "Type mismatch in Config::get()".

Definition KeyNotFoundError (key : string) : exception :=
  runtime_error_of ("Key not found: " +:+ key).

(** [template<typename T> T as() const].  The result is the value the
    returned [T] is initialised from. *)
Definition as_ (T : cpp_type) (cv : ConfigValue) : outcome (den (decay T)) :=
  let DecayedT := decay T in
  if decide (type_ cv ≠ typeid (Obj DecayedT)) then
    Throws TypeMismatchError
  else
    deref_static_cast DecayedT (data_ cv).

(** *** Config *)

Record Config : Type := MkConfig {
  values_ : gmap string ConfigValue   (* std::unordered_map<std::string, ConfigValue> *)
}.

(** A newly created store. *)
Definition Config_new : Config := {| values_ := ∅ |}.

(** [values_[key]]: [operator[]] default-constructs the entry when the key
    is absent. *)
Definition subscript (key : string) (m : gmap string ConfigValue)
  : gmap string ConfigValue :=
  match m !! key with
  | Some _ => m
  | None => <[key := ConfigValue_default]> m
  end.

(** [template<typename T> void set(const std::string& key, T&& value)] *)
Definition set (T : cpp_type) (key : string) (value : den (decay T))
    (c : Config) : Config :=
  {| values_ := <[key := ConfigValue_of T value]> (subscript key (values_ c)) |}.

(** [template<typename T> T get(const std::string& key) const] *)
Definition get (T : cpp_type) (key : string) (c : Config)
  : outcome (den (decay T)) :=
  match values_ c !! key with
  | None => Throws (KeyNotFoundError key)
  | Some v => as_ T v
  end.

(** [template<typename T> T getOrDefault(const std::string& key,
    T&& defaultValue) const] *)
Definition getOrDefault (T : cpp_type) (key : string)
    (defaultValue : den (decay T)) (c : Config) : outcome (den (decay T)) :=
  match values_ c !! key with
  | None => Returns defaultValue
  | Some v => as_ T v
  end.

(** [bool has(const std::string& key) const] *)
Definition has (key : string) (c : Config) : bool :=
  match values_ c !! key with
  | Some _ => true
  | None => false
  end.

(** [void remove(const std::string& key)] *)
Definition remove (key : string) (c : Config) : Config :=
  {| values_ := delete key (values_ c) |}.

(** *** Calls on a store, one after the other *)

(** What a call hands back: nothing ([void]), a [bool], or an object of the
    requested type. *)
Inductive retval : Type :=
| RVoid
| RBool (b : bool)
| RObject (o : object).

(** Forget the static type of a result. *)
Definition erase {D : obj_type} (r : outcome (den D)) : outcome retval :=
  match r with
  | Returns v => Returns (RObject (Object D v))
  | Throws e => Throws e
  | Undefined => Undefined
  end.

(** One call of the public interface, with its template argument. *)
Inductive op : Type :=
| OpSet (T : cpp_type) (key : string) (value : den (decay T))
| OpGet (T : cpp_type) (key : string)
| OpGetOrDefault (T : cpp_type) (key : string) (defaultValue : den (decay T))
| OpHas (key : string)
| OpRemove (key : string).

(** A call maps the store to what the caller observes and the store
    afterwards.  The [const] member functions hand the store back as it
    is; [set] and [remove] have no [throw] and return [void]. *)
Definition step (o : op) (c : Config) : outcome retval * Config :=
  match o with
  | OpSet T key value => (Returns RVoid, set T key value c)
  | OpGet T key => (erase (get T key c), c)
  | OpGetOrDefault T key d => (erase (getOrDefault T key d c), c)
  | OpHas key => (Returns (RBool (has key c)), c)
  | OpRemove key => (Returns RVoid, remove key c)
  end.

(** A caller that catches every exception and goes on: the observations in
    order, and the final store. *)
Fixpoint run (ops : list op) (c : Config) : list (outcome retval) * Config :=
  match ops with
  | [] => ([], c)
  | o :: rest =>
      let '(r, c1) := step o c in
      let '(rs, c2) := run rest c1 in
      (r :: rs, c2)
  end.

Definition exec (ops : list op) (c : Config) : Config := (run ops c).2.

(** Does this call write, or erase, the entry of [k]? *)
Definition sets_key (k : string) (o : op) : bool :=
  match o with
  | OpSet _ key _ => bool_decide (key = k)
  | _ => false
  end.

Definition removes_key (k : string) (o : op) : bool :=
  match o with
  | OpRemove key => bool_decide (key = k)
  | _ => false
  end.

(** Whether [k] is held after the calls [ops], given whether it was held
    before them: the last [set] or [remove] of [k] decides. *)
Fixpoint live (k : string) (ops : list op) (before : bool) : bool :=
  match ops with
  | [] => before
  | o :: rest =>
      live k rest
        (if sets_key k o then true
         else if removes_key k o then false
         else before)
  end.

(** No call in [ops] writes [k]; no call in [ops] writes or erases [k]. *)
Definition never_set (k : string) (ops : list op) : Prop :=
  Forall (λ o, sets_key k o = false) ops.

Definition untouched (k : string) (ops : list op) : Prop :=
  Forall (λ o, sets_key k o = false ∧ removes_key k o = false) ops.

(** Every entry is one the converting constructor built. *)
Definition wf_value (cv : ConfigValue) : Prop :=
  ∃ T v, cv = ConfigValue_of T v.

Definition wf_config (c : Config) : Prop :=
  ∀ k cv, values_ c !! k = Some cv → wf_value cv.

(** *** RaiiWrapper<T, Deleter> *)

(** The resource type [T] is pointer-like: the class tests it with
    [if (resource_)] and assigns [nullptr] to it.  A resource is an
    address, 0 for [nullptr]. *)
Definition nullptr : N := 0%N.

(** A deleter object.  [std::move] leaves its source in a moved-from
    state. *)
Inductive Deleter : Set :=
| Live (d : nat)
| MovedFrom.

Record RaiiWrapper : Set := MkRaiiWrapper {
  resource_ : N;
  deleter_ : Deleter
}.

(** One invocation [deleter_(resource_)]. *)
Definition deleter_call : Set := (Deleter * N)%type.

(** [explicit RaiiWrapper(T resource, Deleter deleter)] and
    [makeRaiiWrapper(resource, deleter)], which returns such an object. *)
Definition makeRaiiWrapper (resource : N) (deleter : nat) : RaiiWrapper :=
  {| resource_ := resource; deleter_ := Live deleter |}.

(** [~RaiiWrapper()]: the deleter calls it makes. *)
Definition RaiiWrapper_destroy (w : RaiiWrapper) : list deleter_call :=
  if bool_decide (resource_ w ≠ nullptr) then [(deleter_ w, resource_ w)]
  else [].

(** [RaiiWrapper(RaiiWrapper&& other) noexcept]: the new object, and
    [other] afterwards. *)
Definition RaiiWrapper_move (other : RaiiWrapper) : RaiiWrapper * RaiiWrapper :=
  ({| resource_ := resource_ other; deleter_ := deleter_ other |},
   {| resource_ := nullptr; deleter_ := MovedFrom |}).

(** [RaiiWrapper& operator=(RaiiWrapper&& other) noexcept] inside its
    guard [this != &other]: the deleter calls, [*this] afterwards and
    [other] afterwards. *)
Definition RaiiWrapper_move_assign (this other : RaiiWrapper)
  : list deleter_call * RaiiWrapper * RaiiWrapper :=
  (if bool_decide (resource_ this ≠ nullptr) then [(deleter_ this, resource_ this)]
   else [],
   {| resource_ := resource_ other; deleter_ := deleter_ other |},
   {| resource_ := nullptr; deleter_ := MovedFrom |}).

(** [T get() const] *)
Definition RaiiWrapper_get (w : RaiiWrapper) : N := resource_ w.

(** [explicit operator bool() const] *)
Definition RaiiWrapper_bool (w : RaiiWrapper) : bool :=
  bool_decide (resource_ w ≠ nullptr).

(** [void reset()]: the deleter calls, and the object afterwards. *)
Definition RaiiWrapper_reset (w : RaiiWrapper) : list deleter_call * RaiiWrapper :=
  if bool_decide (resource_ w ≠ nullptr) then
    ([(deleter_ w, resource_ w)],
     {| resource_ := nullptr; deleter_ := deleter_ w |})
  else ([], w).

(** A program using wrappers: the wrapper objects alive, by address, and
    the deleter calls made so far, oldest first. *)
Record raii_state : Set := MkRaiiState {
  objects : gmap nat RaiiWrapper;
  released : list deleter_call
}.

Definition raii_init : raii_state := {| objects := ∅; released := [] |}.

Inductive raii_op : Set :=
| RNew (a : nat) (resource : N) (deleter : nat)   (* a wrapper constructed at [a] *)
| RMove (a : nat) (other : nat)                   (* move-constructed at [a] from [other] *)
| RMoveAssign (this : nat) (other : nat)          (* [*this = std::move(other)] *)
| RReset (a : nat)
| RDestroy (a : nat).                             (* end of the lifetime of [a] *)

(** One operation; [None] when the program is ill-formed there (an object
    used outside its lifetime, or storage used twice). *)
Definition raii_step (o : raii_op) (s : raii_state) : option raii_state :=
  match o with
  | RNew a resource deleter =>
      match objects s !! a with
      | Some _ => None
      | None =>
          Some {| objects := <[a := makeRaiiWrapper resource deleter]> (objects s);
                  released := released s |}
      end
  | RMove a b =>
      match objects s !! a, objects s !! b with
      | None, Some other =>
          let '(w, other') := RaiiWrapper_move other in
          Some {| objects := <[a := w]> (<[b := other']> (objects s));
                  released := released s |}
      | _, _ => None
      end
  | RMoveAssign a b =>
      match objects s !! a, objects s !! b with
      | Some this, Some other =>
          if decide (a ≠ b) then
            let '(calls, this', other') := RaiiWrapper_move_assign this other in
            Some {| objects := <[a := this']> (<[b := other']> (objects s));
                    released := released s ++ calls |}
          else Some s
      | _, _ => None
      end
  | RReset a =>
      match objects s !! a with
      | Some w =>
          let '(calls, w') := RaiiWrapper_reset w in
          Some {| objects := <[a := w']> (objects s);
                  released := released s ++ calls |}
      | None => None
      end
  | RDestroy a =>
      match objects s !! a with
      | Some w =>
          Some {| objects := delete a (objects s);
                  released := released s ++ RaiiWrapper_destroy w |}
      | None => None
      end
  end.

Fixpoint raii_run (ops : list raii_op) (s : raii_state) : option raii_state :=
  match ops with
  | [] => Some s
  | o :: rest =>
      match raii_step o s with
      | Some s1 => raii_run rest s1
      | None => None
      end
  end.

(** The resources handed to constructors, each with its deleter. *)
Definition acquired (ops : list raii_op) : list deleter_call :=
  ops ≫= λ o,
    match o with
    | RNew _ resource deleter =>
        if bool_decide (resource ≠ nullptr) then [(Live deleter, resource)] else []
    | _ => []
    end.

(** The deleter calls the live objects still owe: what their destructors
    would make. *)
Definition pending (m : gmap nat RaiiWrapper) : list deleter_call :=
  map_to_list m ≫= λ aw, RaiiWrapper_destroy aw.2.

(** *** Logger *)

Module LogLevel.

(** [enum class LogLevel { Debug, Info, Warning, Error }] *)
Inductive t : Set :=
| Debug | Info | Warning | Error.

(** The enumerator values, which [<] compares. *)
Definition value (level : t) : nat :=
  match level with
  | Debug => 0
  | Info => 1
  | Warning => 2
  | Error => 3
  end.

End LogLevel.

Record Logger : Set := MkLogger {
  currentLevel_ : LogLevel.t
}.

(** The one object [getInstance()] refers to, as first constructed:
    [LogLevel currentLevel_ = LogLevel::Info]. *)
Definition Logger_instance : Logger := {| currentLevel_ := LogLevel.Info |}.

(** [void setLevel(LogLevel level)] *)
Definition Logger_setLevel (level : LogLevel.t) (l : Logger) : Logger :=
  {| currentLevel_ := level |}.

Definition levelStr (level : LogLevel.t) : string :=
  match level with
  | LogLevel.Debug => "DEBUG"
  | LogLevel.Info => "INFO"
  | LogLevel.Warning => "WARN"
  | LogLevel.Error => "ERROR"
  end.

Definition levelEmoji (level : LogLevel.t) : string :=
  match level with
  | LogLevel.Debug => "🐛"
  | LogLevel.Info => "ℹ️"
  | LogLevel.Warning => "⚠️"
  | LogLevel.Error => "❌"
  end.

(** The newline [std::endl] writes (character 10). *)
Definition endl : string :=
  String (Ascii.Ascii false true false true false false false false) EmptyString.

(** The line a message makes; [stamp] is what [std::put_time] writes for
    the clock reading of the call. *)
Definition log_line (level : LogLevel.t) (format stamp : string) : string :=
  "[" +:+ stamp +:+ "] " +:+ levelEmoji level +:+ " " +:+ levelStr level
    +:+ ": " +:+ format +:+ endl.

(** [void log(LogLevel level, const std::string& format)], the only
    instantiation utils.cpp provides: the lines written to [std::cout]. *)
Definition Logger_log (level : LogLevel.t) (format stamp : string) (l : Logger)
  : list string :=
  if decide (LogLevel.value level < LogLevel.value (currentLevel_ l)) then []
  else [log_line level format stamp].

(** [debug], [info], [warning], [error] *)
Definition Logger_debug (format stamp : string) (l : Logger) : list string :=
  Logger_log LogLevel.Debug format stamp l.

Definition Logger_info (format stamp : string) (l : Logger) : list string :=
  Logger_log LogLevel.Info format stamp l.

Definition Logger_warning (format stamp : string) (l : Logger) : list string :=
  Logger_log LogLevel.Warning format stamp l.

Definition Logger_error (format stamp : string) (l : Logger) : list string :=
  Logger_log LogLevel.Error format stamp l.

(** A call on the logger. *)
Inductive logger_call : Set :=
| CallSetLevel (level : LogLevel.t)
| CallDebug (format stamp : string)
| CallInfo (format stamp : string)
| CallWarning (format stamp : string)
| CallError (format stamp : string).

Definition logger_step (c : logger_call) (l : Logger) : list string * Logger :=
  match c with
  | CallSetLevel level => ([], Logger_setLevel level l)
  | CallDebug format stamp => (Logger_debug format stamp l, l)
  | CallInfo format stamp => (Logger_info format stamp l, l)
  | CallWarning format stamp => (Logger_warning format stamp l, l)
  | CallError format stamp => (Logger_error format stamp l, l)
  end.

(** The lines a sequence of calls writes, and the logger afterwards. *)
Fixpoint logger_run (calls : list logger_call) (l : Logger) : list string * Logger :=
  match calls with
  | [] => ([], l)
  | c :: rest =>
      let '(out, l1) := logger_step c l in
      let '(outs, l2) := logger_run rest l1 in
      (out ++ outs, l2)
  end.

(** The level of a message call and the line it would make. *)
Definition message_level (c : logger_call) : option LogLevel.t :=
  match c with
  | CallSetLevel _ => None
  | CallDebug _ _ => Some LogLevel.Debug
  | CallInfo _ _ => Some LogLevel.Info
  | CallWarning _ _ => Some LogLevel.Warning
  | CallError _ _ => Some LogLevel.Error
  end.

Definition message_line (c : logger_call) : option string :=
  match c with
  | CallSetLevel _ => None
  | CallDebug format stamp => Some (log_line LogLevel.Debug format stamp)
  | CallInfo format stamp => Some (log_line LogLevel.Info format stamp)
  | CallWarning format stamp => Some (log_line LogLevel.Warning format stamp)
  | CallError format stamp => Some (log_line LogLevel.Error format stamp)
  end.

(** Is [c] a message call whose level is not below [level]? *)
Definition passes (level : LogLevel.t) (c : logger_call) : bool :=
  match message_level c with
  | Some lv => bool_decide (LogLevel.value level ≤ LogLevel.value lv)
  | None => false
  end.

Definition is_message (c : logger_call) : bool :=
  match message_level c with
  | Some _ => true
  | None => false
  end.

(** ** Properties *)

(** *** The type model *)

Lemma remove_cv_decay (T : cpp_type) : remove_cv (decay T) = decay T.
Proof. by destruct T as [[]|[]|[]]. Qed.

Lemma typeid_decay (T : cpp_type) : typeid (Obj (decay T)) = TypeIndex (decay T).
Proof. unfold typeid; simpl. by rewrite remove_cv_decay. Qed.

Lemma decay_idemp (T : cpp_type) : decay (Obj (decay T)) = decay T.
Proof. by destruct T as [[]|[]|[]]. Qed.

Lemma typeid_decay_inj (T1 T2 : cpp_type) :
  typeid (Obj (decay T1)) = typeid (Obj (decay T2)) ↔ decay T1 = decay T2.
Proof. rewrite !typeid_decay. split; congruence. Qed.

Lemma deref_static_cast_same (D : obj_type) (v : den D) :
  deref_static_cast D (Some (Object D v)) = Returns v.
Proof.
  unfold deref_static_cast.
  destruct (decide (D = D)) as [e|ne]; [|done].
  by rewrite (proof_irrel e eq_refl).
Qed.

(** *** ConfigValue *)

Lemma as_of_same (T : cpp_type) (v : den (decay T)) :
  as_ T (ConfigValue_of T v) = Returns v.
Proof.
  unfold as_, ConfigValue_of; simpl.
  destruct (decide _) as [ne|_]; [done|].
  apply deref_static_cast_same.
Qed.

Lemma as_of_mismatch (T1 T2 : cpp_type) (v : den (decay T1)) :
  decay T2 ≠ decay T1 →
  as_ T2 (ConfigValue_of T1 v) = Throws TypeMismatchError.
Proof.
  intros Hne. unfold as_, ConfigValue_of; simpl.
  destruct (decide _) as [_|e]; [done|].
  exfalso. apply Hne. symmetry. apply typeid_decay_inj.
  by destruct (decide (typeid (Obj (decay T1)) = typeid (Obj (decay T2)))).
Qed.

Lemma KeyNotFoundError_what (key : string) :
  KeyNotFoundError key = runtime_error ("Key not found: " +:+ c_str key).
Proof. reflexivity. Qed.

Lemma KeyNotFound_not_TypeMismatch (key : string) :
  KeyNotFoundError key ≠ TypeMismatchError.
Proof. rewrite KeyNotFoundError_what. unfold TypeMismatchError. intros [= H]. Qed.

(** *** The map under set, has and remove *)

Lemma lookup_set (T : cpp_type) (k k' : string) (v : den (decay T)) (c : Config) :
  values_ (set T k v c) !! k' =
  if decide (k = k') then Some (ConfigValue_of T v) else values_ c !! k'.
Proof.
  unfold set, subscript; simpl. rewrite lookup_insert.
  case_decide; [done|].
  destruct (values_ c !! k) eqn:E; by rewrite ?lookup_insert_ne.
Qed.

(** [values_[key] = x] comes to inserting [x] at [key]. *)
Lemma set_insert (T : cpp_type) (k : string) (v : den (decay T)) (c : Config) :
  set T k v c = {| values_ := <[k := ConfigValue_of T v]> (values_ c) |}.
Proof.
  unfold set, subscript. f_equal.
  destruct (values_ c !! k); [done|]. by rewrite insert_insert_eq.
Qed.

Lemma lookup_remove (k k' : string) (c : Config) :
  values_ (remove k c) !! k' = if decide (k = k') then None else values_ c !! k'.
Proof. unfold remove; simpl. by rewrite lookup_delete. Qed.

Lemma has_true (k : string) (c : Config) :
  has k c = true ↔ is_Some (values_ c !! k).
Proof. unfold has. destruct (values_ c !! k); split; try done; by intros [? ?]. Qed.

Lemma has_false (k : string) (c : Config) :
  has k c = false ↔ values_ c !! k = None.
Proof. unfold has. by destruct (values_ c !! k). Qed.

Lemma get_set_same (T : cpp_type) (k : string) (v : den (decay T)) (c : Config) :
  get T k (set T k v c) = Returns v.
Proof.
  unfold get. rewrite lookup_set. rewrite decide_True by done.
  apply as_of_same.
Qed.

Lemma get_set_mismatch (T1 T2 : cpp_type) (k : string) (v : den (decay T1))
    (c : Config) :
  decay T2 ≠ decay T1 →
  get T2 k (set T1 k v c) = Throws TypeMismatchError.
Proof.
  intros Hne. unfold get. rewrite lookup_set. rewrite decide_True by done.
  by apply as_of_mismatch.
Qed.

(** *** The scenarios of the unit tests (ConfigTest) *)

Example test_SetAndGet :
  let config :=
    exec [OpSet T_string "name" "TestApp"; OpSet T_double "version" (S754_finite false 4503599627370496 (-52));
          OpSet T_bool "debug" true; OpSet T_int "maxConnections" 100%Z] Config_new in
  get T_string "name" config = Returns "TestApp" ∧
  get T_double "version" config = Returns (S754_finite false 4503599627370496 (-52)) ∧
  get T_bool "debug" config = Returns true ∧
  get T_int "maxConnections" config = Returns 100%Z ∧
  has "name" config = true ∧
  has "nonexistent" config = false.
Proof. vm_compute. done. Qed.

(** *** Retrieval after a write *)

(** C2. For every store, key [k], template argument [T] and value [v]:
    immediately after [set<T>(k, v)], [get<T>(k)] returns normally, and
    what it returns is [v]. *)
Theorem get_after_set (c : Config) (T : cpp_type) (k : string) (v : den (decay T)) :
  get T k (set T k v c) = Returns v.
Proof. apply get_set_same. Qed.

(** C1, as stated, fails: after [set<int>("value", 42)] the request
    [get<const int>("value")] names a type other than [int], and yet it
    returns 42 instead of throwing. *)
Lemma get_other_type_counterexample :
  T_const_int ≠ T_int ∧
  get T_const_int "value" (set T_int "value" 42%Z Config_new) = Returns 42%Z ∧
  get T_const_int "value" (set T_int "value" 42%Z Config_new) ≠ Throws TypeMismatchError.
Proof. split; [done|]. split; [by vm_compute | by vm_compute]. Qed.

(** C1, amended. In every store where the entry of [k] is the one
    [set<T1>(k, v)] wrote, [get<T2>(k)] throws the type-mismatch error for
    every [T2] whose decayed type differs from the decayed type of [T1]. *)
Theorem get_decayed_type_mismatch (c : Config) (k : string) (T1 T2 : cpp_type)
    (v : den (decay T1)) :
  values_ c !! k = Some (ConfigValue_of T1 v) →
  decay T2 ≠ decay T1 →
  get T2 k c = Throws TypeMismatchError.
Proof.
  intros Hk Hne. unfold get. rewrite Hk. by apply as_of_mismatch.
Qed.

Lemma get_decayed_type_mismatch_witness :
  get T_string "value" (set T_int "value" 42%Z Config_new) = Throws TypeMismatchError ∧
  get T_double "value" (set T_int "value" 42%Z Config_new) = Throws TypeMismatchError.
Proof.
  split.
  - apply (get_decayed_type_mismatch _ "value" T_int T_string 42%Z);
      [by vm_compute | by vm_compute].
  - apply (get_decayed_type_mismatch _ "value" T_int T_double 42%Z);
      [by vm_compute | by vm_compute].
Defined.

(** C6, as stated, fails: with [k] holding an [int], [set] with a
    [const int] lvalue (so [T = const int&]) writes a value of another
    type, and yet [get<int>(k)] afterwards returns the new value instead
    of throwing. *)
Lemma reset_other_type_counterexample :
  T_const_int_lref ≠ T_int ∧
  get T_int "k" (set T_const_int_lref "k" 2%Z (set T_int "k" 1%Z Config_new))
    = Returns 2%Z.
Proof. split; [done | by vm_compute]. Qed.

(** C6, amended. When [k] holds the entry [set<T1>] wrote and [set<T2>(k,
    v2)] is called with the decayed type of [T2] different from that of
    [T1], the entry afterwards is the one of [T2] and [v2]: [get<T2>(k)]
    returns [v2] and [get<T1>(k)] throws the type-mismatch error. *)
Theorem reset_with_other_decayed_type (c : Config) (k : string)
    (T1 T2 : cpp_type) (v1 : den (decay T1)) (v2 : den (decay T2)) :
  values_ c !! k = Some (ConfigValue_of T1 v1) →
  decay T2 ≠ decay T1 →
  values_ (set T2 k v2 c) !! k = Some (ConfigValue_of T2 v2) ∧
  get T2 k (set T2 k v2 c) = Returns v2 ∧
  get T1 k (set T2 k v2 c) = Throws TypeMismatchError.
Proof.
  intros _ Hne. split; [|split].
  - rewrite lookup_set. by rewrite decide_True.
  - apply get_set_same.
  - apply get_set_mismatch. congruence.
Qed.

Lemma reset_with_other_decayed_type_witness :
  values_ (set T_string "k" "one" (set T_int "k" 1%Z Config_new)) !! "k"
    = Some (ConfigValue_of T_string "one") ∧
  get T_string "k" (set T_string "k" "one" (set T_int "k" 1%Z Config_new))
    = Returns "one" ∧
  get T_int "k" (set T_string "k" "one" (set T_int "k" 1%Z Config_new))
    = Throws TypeMismatchError.
Proof.
  apply (reset_with_other_decayed_type _ "k" T_int T_string 1%Z "one");
    [by vm_compute | by vm_compute].
Defined.

(** *** Presence of a key along a sequence of calls *)

Lemma exec_cons (o : op) (rest : list op) (c : Config) :
  exec (o :: rest) c = exec rest (step o c).2.
Proof.
  unfold exec; simpl. destruct (step o c) as [r c1]; simpl.
  by destruct (run rest c1).
Qed.

Lemma exec_app (pre post : list op) (c : Config) :
  exec (pre ++ post) c = exec post (exec pre c).
Proof.
  revert c. induction pre as [|o pre IH]; intros c; [done|].
  rewrite <- app_comm_cons, !exec_cons. apply IH.
Qed.

Lemma has_step (k : string) (o : op) (c : Config) :
  has k (step o c).2 =
  if sets_key k o then true else if removes_key k o then false else has k c.
Proof.
  destruct o as [T key v|T key|T key d|key|key]; simpl; try done.
  - unfold has. rewrite lookup_set. case_bool_decide; by case_decide.
  - unfold has. rewrite lookup_remove. case_bool_decide; by case_decide.
Qed.

Lemma has_exec (k : string) (ops : list op) (c : Config) :
  has k (exec ops c) = live k ops (has k c).
Proof.
  revert c. induction ops as [|o rest IH]; intros c; [done|].
  rewrite exec_cons, IH, has_step. done.
Qed.

Lemma live_app (k : string) (pre post : list op) (b : bool) :
  live k (pre ++ post) b = live k post (live k pre b).
Proof. revert b. induction pre as [|o pre IH]; intros b; simpl; [done|apply IH]. Qed.

Lemma live_never_set (k : string) (ops : list op) :
  never_set k ops → live k ops false = false.
Proof.
  induction 1 as [|o rest Ho _ IH]; simpl; [done|].
  rewrite Ho. by destruct (removes_key k o).
Qed.

Lemma live_iff (k : string) (ops : list op) (b : bool) :
  live k ops b = true ↔
    (∃ pre T v post, ops = pre ++ OpSet T k v :: post ∧ untouched k post)
    ∨ (b = true ∧ untouched k ops).
Proof.
  revert b. induction ops as [|o rest IH]; intros b; simpl.
  - split.
    + intros ->. right. split; [done | constructor].
    + intros [(pre & T & v & post & E & _)|[-> _]]; [|done].
      by destruct pre.
  - rewrite IH. split.
    + intros [(pre & T & v & post & -> & Hpost)|[Hb Hrest]].
      * left. by exists (o :: pre), T, v, post.
      * destruct (sets_key k o) eqn:Hs.
        -- destruct o as [T key v| | | |]; try done.
           simpl in Hs. apply bool_decide_eq_true in Hs as ->.
           left. by exists [], T, v, rest.
        -- destruct (removes_key k o) eqn:Hr; [done|].
           right. split; [done|]. by constructor.
    + intros [(pre & T & v & post & E & Hpost)|[-> Hall]].
      * destruct pre as [|o' pre]; simpl in E; injection E as -> ->.
        -- right. simpl. by rewrite bool_decide_eq_true_2.
        -- left. by exists pre, T, v, post.
      * apply Forall_cons in Hall as [[-> ->] Hrest]. by right.
Qed.

(** C5. For every sequence of calls on a newly created store: [has(k)] is
    true afterwards if and only if the sequence contains a [set] of [k]
    after which [k] is neither set again nor removed, that is, [k] was set
    at some point and no [remove(k)] follows the last such [set]. *)
Theorem has_iff_set_and_not_removed (ops : list op) (k : string) :
  has k (exec ops Config_new) = true ↔
  ∃ pre T v post, ops = pre ++ OpSet T k v :: post ∧ untouched k post.
Proof.
  rewrite has_exec, live_iff. split; [|by left].
  by intros [H|[H _]].
Qed.

(** C3. On a newly created store, after a sequence of calls in which [k]
    is never set, or in which [k] is removed and not set again afterwards,
    [has(k)] is false and [get<T>(k)] throws the key-not-found error for
    every [T]. *)
Theorem absent_key_not_found (ops : list op) (k : string) :
  never_set k ops ∨
    (∃ pre post, ops = pre ++ OpRemove k :: post ∧ never_set k post) →
  has k (exec ops Config_new) = false ∧
  ∀ T, get T k (exec ops Config_new) = Throws (KeyNotFoundError k).
Proof.
  intros H.
  assert (has k (exec ops Config_new) = false) as Hhas.
  { rewrite has_exec. destruct H as [H|(pre & post & -> & Hpost)].
    - by apply live_never_set.
    - rewrite live_app. simpl. rewrite bool_decide_eq_true_2 by done.
      by apply live_never_set. }
  split; [done|]. intros T. unfold get.
  apply has_false in Hhas. by rewrite Hhas.
Qed.

Lemma absent_key_not_found_witness :
  (has "timeout" (exec [OpSet T_int "port" 80%Z; OpHas "timeout"] Config_new) = false ∧
   ∀ T, get T "timeout" (exec [OpSet T_int "port" 80%Z; OpHas "timeout"] Config_new)
        = Throws (KeyNotFoundError "timeout")) ∧
  (has "debug" (exec [OpSet T_bool "debug" true; OpRemove "debug"] Config_new) = false ∧
   ∀ T, get T "debug" (exec [OpSet T_bool "debug" true; OpRemove "debug"] Config_new)
        = Throws (KeyNotFoundError "debug")).
Proof.
  split.
  - apply (absent_key_not_found [OpSet T_int "port" 80%Z; OpHas "timeout"] "timeout").
    left. repeat constructor.
  - apply (absent_key_not_found [OpSet T_bool "debug" true; OpRemove "debug"] "debug").
    right. exists [OpSet T_bool "debug" true], []. split; [reflexivity | constructor].
Defined.

(** *** getOrDefault *)

Lemma as_not_KeyNotFound (T : cpp_type) (cv : ConfigValue) (key : string) :
  as_ T cv ≠ Throws (KeyNotFoundError key).
Proof.
  unfold as_. destruct (decide _) as [_|_].
  - intros H. apply (KeyNotFound_not_TypeMismatch key). congruence.
  - unfold deref_static_cast. destruct (data_ cv) as [[o v]|]; [|done].
    by destruct (decide _).
Qed.

(** C4, as stated, fails: with 30 stored under "timeout",
    [getOrDefault("timeout", 30)] returns its default 30 although
    [has("timeout")] is true. *)
Lemma getOrDefault_stored_default_counterexample :
  has "timeout" (set T_int "timeout" 30%Z Config_new) = true ∧
  getOrDefault T_int "timeout" 30%Z (set T_int "timeout" 30%Z Config_new)
    = Returns 30%Z.
Proof. split; by vm_compute. Qed.

(** C4, amended. [getOrDefault<T>(k, d)] returns [d] when [has(k)] is
    false and is [get<T>(k)] otherwise, with the same value or the same
    type-mismatch error; so it returns [d] exactly when [has(k)] is false
    or [get<T>(k)] itself returns [d]; and it never throws the
    key-not-found error. *)
Theorem getOrDefault_spec (c : Config) (T : cpp_type) (k : string)
    (d : den (decay T)) :
  getOrDefault T k d c = (if has k c then get T k c else Returns d) ∧
  (getOrDefault T k d c = Returns d ↔
     has k c = false ∨ get T k c = Returns d) ∧
  (∀ key, getOrDefault T k d c ≠ Throws (KeyNotFoundError key)).
Proof.
  unfold getOrDefault, get, has.
  destruct (values_ c !! k) as [cv|]; split; try done; split.
  - split; [by right | by intros [?|?]].
  - intros key. apply as_not_KeyNotFound.
  - split; [by left | done].
  - done.
Qed.

(** *** remove *)

(** C7. After [remove(k)], [has(k)] is false; [remove] returns normally,
    and on a store that does not hold [k] it leaves the store as it is. *)
Theorem remove_spec (c : Config) (k : string) :
  has k (remove k c) = false ∧
  (step (OpRemove k) c).1 = Returns RVoid ∧
  (has k c = false → step (OpRemove k) c = (Returns RVoid, c)).
Proof.
  split; [|split].
  - apply has_false. rewrite lookup_remove. by rewrite decide_True.
  - done.
  - intros H%has_false. simpl. f_equal. unfold remove.
    destruct c as [m]; simpl in *. f_equal. by apply delete_id.
Qed.

(** *** Failing calls *)

Lemma step_throws_const (o : op) (c : Config) (e : exception) :
  (step o c).1 = Throws e → (step o c).2 = c.
Proof. by destruct o. Qed.

(** C8. A call that throws leaves the store as it was: the entries are
    the same, and whatever calls follow observe and produce exactly what
    they would have without the failing call. *)
Theorem failing_call_no_effect (o : op) (c : Config) (e : exception) :
  (step o c).1 = Throws e →
  values_ (step o c).2 = values_ c ∧
  (step o c).2 = c ∧
  ∀ rest, run (o :: rest) c = (Throws e :: (run rest c).1, (run rest c).2).
Proof.
  intros H. pose proof (step_throws_const o c e H) as Hc.
  split; [by rewrite Hc|]. split; [done|].
  intros rest. simpl. destruct (step o c) as [r c1]; simpl in *. subst.
  by destruct (run rest c).
Qed.

Lemma failing_call_no_effect_witness :
  (values_ (step (OpGet T_int "timeout") Config_new).2 = values_ Config_new ∧
   (step (OpGet T_int "timeout") Config_new).2 = Config_new ∧
   ∀ rest, run (OpGet T_int "timeout" :: rest) Config_new
           = (Throws (KeyNotFoundError "timeout") :: (run rest Config_new).1,
              (run rest Config_new).2)) ∧
  (values_ (step (OpGetOrDefault T_string "value" "none")
                 (set T_int "value" 42%Z Config_new)).2
     = values_ (set T_int "value" 42%Z Config_new) ∧
   (step (OpGetOrDefault T_string "value" "none")
         (set T_int "value" 42%Z Config_new)).2
     = set T_int "value" 42%Z Config_new ∧
   ∀ rest, run (OpGetOrDefault T_string "value" "none" :: rest)
               (set T_int "value" 42%Z Config_new)
           = (Throws TypeMismatchError
                :: (run rest (set T_int "value" 42%Z Config_new)).1,
              (run rest (set T_int "value" 42%Z Config_new)).2)).
Proof.
  split.
  - apply (failing_call_no_effect (OpGet T_int "timeout") Config_new
             (KeyNotFoundError "timeout")).
    reflexivity.
  - apply (failing_call_no_effect (OpGetOrDefault T_string "value" "none")
             (set T_int "value" 42%Z Config_new) TypeMismatchError).
    by vm_compute.
Defined.

(** *** Decayed types *)

Lemma decay_reference (U : obj_type) :
  decay (LRef U) = decay (Obj U) ∧ decay (RRef U) = decay (Obj U).
Proof. done. Qed.

Lemma decay_with_cv (q : cv_qual) (U : obj_type) :
  is_array U = false → decay (Obj (with_cv q U)) = decay (Obj U).
Proof. by destruct U. Qed.

Lemma as_same_decay (T T' : cpp_type) (cv : ConfigValue) :
  decay T' = decay T → erase (as_ T' cv) = erase (as_ T cv).
Proof.
  unfold as_. generalize (decay T) (decay T'). by intros D D' ->.
Qed.

Lemma get_same_decay (T T' : cpp_type) (k : string) (c : Config) :
  decay T' = decay T → erase (get T' k c) = erase (get T k c).
Proof.
  intros H. unfold get. destruct (values_ c !! k) as [cv|]; [|done].
  by apply as_same_decay.
Qed.

Lemma as_of_throws_iff (T1 T2 : cpp_type) (v : den (decay T1)) :
  as_ T2 (ConfigValue_of T1 v) = Throws TypeMismatchError ↔ decay T2 ≠ decay T1.
Proof.
  split; [|apply as_of_mismatch].
  intros H E. unfold as_, ConfigValue_of in H; simpl in H.
  destruct (decide _) as [ne|_].
  - apply ne. by apply typeid_decay_inj.
  - revert v H. rewrite <- E. intros v.
    change (deref_static_cast (decay T2) (Some (Object (decay T2) v))
            = Throws TypeMismatchError → False).
    by rewrite deref_static_cast_same.
Qed.

(** C9, as stated, fails: a string literal and a writable buffer of the
    same size differ in a cv-qualifier only, and yet [get<const char*>]
    returns after [set] with the literal and throws the type-mismatch
    error after [set] with the buffer. *)
Lemma array_qualifier_counterexample :
  T_literal8 = LRef (with_cv q_const (remove_reference T_buffer8)) ∧
  get T_const_char_ptr "name" (set T_literal8 "name" 4096%N Config_new)
    = Returns 4096%N ∧
  get T_const_char_ptr "name" (set T_buffer8 "name" 4096%N Config_new)
    = Throws TypeMismatchError.
Proof. split; [reflexivity|]. split; by vm_compute. Qed.

(** C9, amended. [get<T>(k)] throws the same error or reads the same
    value as [get<decay(T)>(k)], and leaves the same store, for every
    store, key and [T].  The tag found at [k] after [set<T1>(k, v)] is the
    type index of the decayed [T1], and [get<T>(k)] then throws the
    type-mismatch error exactly when the decayed types of [T] and [T1]
    differ.  Hence template arguments with the same decayed type are
    interchangeable on the [get] side and on the [set] side; a reference
    qualifier, and the cv-qualifier of a non-array type, never change the
    decayed type; the qualifier of an array argument stays, on the
    pointee of the pointer it decays to. *)
Theorem get_compares_decayed_types (c : Config) (k : string) (T : cpp_type) :
  step (OpGet T k) c = step (OpGet (Obj (decay T)) k) c ∧
  (∀ T1 (v : den (decay T1)),
     type_ <$> values_ (set T1 k v c) !! k = Some (TypeIndex (decay T1)) ∧
     (get T k (set T1 k v c) = Throws TypeMismatchError ↔ decay T ≠ decay T1)) ∧
  (∀ T', decay T' = decay T → step (OpGet T' k) c = step (OpGet T k) c) ∧
  (∀ T1 T1' (v : den (decay T1)) (v' : den (decay T1')),
     decay T1' = decay T1 →
     (get T k (set T1' k v' c) = Throws TypeMismatchError ↔
      get T k (set T1 k v c) = Throws TypeMismatchError)) ∧
  (∀ U, decay (LRef U) = decay (Obj U) ∧ decay (RRef U) = decay (Obj U)) ∧
  (∀ q U, is_array U = false → decay (Obj (with_cv q U)) = decay (Obj U)) ∧
  (∀ q e n, decay (Obj (with_cv q (Array e n))) = Pointer unqual (with_cv q e)).
Proof.
  split; [|split; [|split; [|split; [|split; [|split]]]]].
  - simpl. f_equal. apply get_same_decay. symmetry. apply decay_idemp.
  - intros T1 v. split.
    + rewrite lookup_set, decide_True by done. simpl. f_equal. apply typeid_decay.
    + unfold get. rewrite lookup_set, decide_True by done.
      apply as_of_throws_iff.
  - intros T' H. simpl. f_equal. by apply get_same_decay.
  - intros T1 T1' v v' H. unfold get. rewrite !lookup_set, !decide_True by done.
    rewrite !as_of_throws_iff. by rewrite H.
  - done.
  - apply decay_with_cv.
  - done.
Qed.

(** What decay keeps: the qualifier of an array's elements is part of the
    pointer type the array decays to, so a literal is stored as a
    [const char*] and a writable buffer as a [char*]. *)
Example array_arguments_decay (p : N) :
  get T_const_char_ptr "name" (set T_literal8 "name" p Config_new) = Returns p ∧
  get T_char_ptr "name" (set T_buffer8 "name" p Config_new) = Returns p ∧
  get T_const_char_ptr "name" (set T_buffer8 "name" p Config_new)
    = Throws TypeMismatchError ∧
  get T_string "name" (set T_literal8 "name" p Config_new) = Throws TypeMismatchError.
Proof. repeat split; by vm_compute. Qed.

(** Requests that differ from the stored type in qualifiers only. *)
Example qualified_requests :
  get T_int_lref "n" (set T_const_int_lref "n" 7%Z Config_new) = Returns 7%Z ∧
  get (Obj (Scalar q_volatile b_int)) "n" (set T_int "n" 7%Z Config_new) = Returns 7%Z ∧
  get T_const_string_lref "s" (set T_string "s" "x" Config_new) = Returns "x".
Proof. repeat split; by vm_compute. Qed.

(** *** set and remove touch one key *)

(** C10. For keys [k' ≠ k], [set<T>(k, v)] and [remove(k)] leave the entry
    of [k'] as it is: [has(k')] and [get<T'>(k')], for every [T'], are the
    same before and after the call. *)
Theorem set_remove_frame (c : Config) (k k' : string) :
  k' ≠ k →
  (∀ T v,
     values_ (set T k v c) !! k' = values_ c !! k' ∧
     has k' (set T k v c) = has k' c ∧
     ∀ T', get T' k' (set T k v c) = get T' k' c) ∧
  (values_ (remove k c) !! k' = values_ c !! k' ∧
   has k' (remove k c) = has k' c ∧
   ∀ T', get T' k' (remove k c) = get T' k' c).
Proof.
  intros Hne. split.
  - intros T v.
    assert (values_ (set T k v c) !! k' = values_ c !! k') as E.
    { rewrite lookup_set. by rewrite decide_False. }
    unfold has, get. by rewrite E.
  - assert (values_ (remove k c) !! k' = values_ c !! k') as E.
    { rewrite lookup_remove. by rewrite decide_False. }
    unfold has, get. by rewrite E.
Qed.

Lemma set_remove_frame_witness :
  (∀ T v,
     values_ (set T "debug" v (set T_int "timeout" 60%Z Config_new)) !! "timeout"
       = values_ (set T_int "timeout" 60%Z Config_new) !! "timeout" ∧
     has "timeout" (set T "debug" v (set T_int "timeout" 60%Z Config_new))
       = has "timeout" (set T_int "timeout" 60%Z Config_new) ∧
     ∀ T', get T' "timeout" (set T "debug" v (set T_int "timeout" 60%Z Config_new))
           = get T' "timeout" (set T_int "timeout" 60%Z Config_new)) ∧
  (values_ (remove "debug" (set T_int "timeout" 60%Z Config_new)) !! "timeout"
     = values_ (set T_int "timeout" 60%Z Config_new) !! "timeout" ∧
   has "timeout" (remove "debug" (set T_int "timeout" 60%Z Config_new))
     = has "timeout" (set T_int "timeout" 60%Z Config_new) ∧
   ∀ T', get T' "timeout" (remove "debug" (set T_int "timeout" 60%Z Config_new))
         = get T' "timeout" (set T_int "timeout" 60%Z Config_new)).
Proof.
  apply (set_remove_frame (set T_int "timeout" 60%Z Config_new) "debug" "timeout").
  by vm_compute.
Defined.

(** *** Stores built by calls are well formed *)

Lemma wf_step (o : op) (c : Config) : wf_config c → wf_config (step o c).2.
Proof.
  intros Hwf. destruct o as [T key v|T key|T key d|key|key]; simpl; try done.
  - intros k cv. rewrite lookup_set. case_decide; [|apply Hwf].
    intros [= <-]. by exists T, v.
  - intros k cv. rewrite lookup_remove. case_decide; [done|apply Hwf].
Qed.

Lemma wf_exec (ops : list op) : wf_config (exec ops Config_new).
Proof.
  assert (∀ c, wf_config c → wf_config (exec ops c)) as H.
  { induction ops as [|o rest IH]; intros c Hc; [done|].
    rewrite exec_cons. by apply IH, wf_step. }
  apply H. intros k cv. unfold Config_new; simpl. by rewrite lookup_empty.
Qed.

(** On such a store no call runs into undefined behaviour. *)
Lemma get_defined (T : cpp_type) (k : string) (ops : list op) :
  get T k (exec ops Config_new) ≠ Undefined.
Proof.
  unfold get. destruct (values_ _ !! k) as [cv|] eqn:E; [|done].
  destruct (wf_exec ops k cv E) as (T1 & v & ->).
  destruct (decide (decay T = decay T1)) as [e|ne].
  - unfold as_, ConfigValue_of; simpl.
    destruct (decide _) as [_|_]; [done|].
    clear E. revert v. rewrite <- e. intros v.
    change (deref_static_cast (decay T) (Some (Object (decay T) v)) ≠ Undefined).
    by rewrite deref_static_cast_same.
  - by rewrite as_of_mismatch.
Qed.

(** *** The remaining scenarios of the unit tests *)

Example test_DefaultValues :
  getOrDefault T_int "timeout" 30%Z Config_new = Returns 30%Z ∧
  getOrDefault T_string "host" "localhost" Config_new = Returns "localhost" ∧
  getOrDefault T_int "timeout" 30%Z (set T_int "timeout" 60%Z Config_new) = Returns 60%Z.
Proof. split; [|split]; by vm_compute. Qed.

Example test_TypeErrors :
  get T_string "value" (set T_int "value" 42%Z Config_new) = Throws TypeMismatchError ∧
  get T_int "nonexistent" (set T_int "value" 42%Z Config_new)
    = Throws (KeyNotFoundError "nonexistent").
Proof. split; by vm_compute. Qed.

(** ** Further properties of the store *)

Lemma lookup_step_other (k : string) (o : op) (c : Config) :
  sets_key k o = false → removes_key k o = false →
  values_ (step o c).2 !! k = values_ c !! k.
Proof.
  destruct o as [T key v|T key|T key d|key|key];
    cbn [step snd sets_key removes_key]; try done.
  - intros H%bool_decide_eq_false _. rewrite lookup_set. by rewrite decide_False.
  - intros _ H%bool_decide_eq_false. rewrite lookup_remove. by rewrite decide_False.
Qed.

Lemma lookup_exec_untouched (k : string) (ops : list op) (c : Config) :
  untouched k ops → values_ (exec ops c) !! k = values_ c !! k.
Proof.
  intros H. revert c. induction H as [|o rest [Hs Hr] _ IH]; intros c; [done|].
  rewrite exec_cons, IH. by apply lookup_step_other.
Qed.

(** X1. The last [set] of a key decides what the key holds, whatever store
    the calls started from and whatever was done to other keys since:
    [get] with the same template argument returns the value written,
    [getOrDefault] ignores its default, and a request for any other
    decayed type throws the type-mismatch error. *)
Theorem last_set_decides (pre post : list op) (c : Config) (T : cpp_type)
    (k : string) (v : den (decay T)) :
  untouched k post →
  values_ (exec (pre ++ OpSet T k v :: post) c) !! k = Some (ConfigValue_of T v) ∧
  get T k (exec (pre ++ OpSet T k v :: post) c) = Returns v ∧
  (∀ d, getOrDefault T k d (exec (pre ++ OpSet T k v :: post) c) = Returns v) ∧
  (∀ T2, decay T2 ≠ decay T →
     get T2 k (exec (pre ++ OpSet T k v :: post) c) = Throws TypeMismatchError).
Proof.
  intros Hpost.
  assert (values_ (exec (pre ++ OpSet T k v :: post) c) !! k
          = Some (ConfigValue_of T v)) as E.
  { rewrite exec_app, exec_cons, lookup_exec_untouched by done.
    cbn [step snd]. rewrite lookup_set. by rewrite decide_True. }
  split; [done|]. unfold get, getOrDefault. rewrite E.
  split; [apply as_of_same|]. split; [intros _; apply as_of_same|].
  intros T2 Hne. by apply as_of_mismatch.
Qed.

Lemma last_set_decides_witness :
  values_ (exec ([OpSet T_string "timeout" "soon"]
                 ++ OpSet T_int "timeout" 60%Z
                 :: [OpSet T_bool "debug" true; OpRemove "name"; OpGet T_int "port"])
                Config_new) !! "timeout" = Some (ConfigValue_of T_int 60%Z) ∧
  get T_int "timeout"
      (exec ([OpSet T_string "timeout" "soon"]
             ++ OpSet T_int "timeout" 60%Z
             :: [OpSet T_bool "debug" true; OpRemove "name"; OpGet T_int "port"])
            Config_new) = Returns 60%Z ∧
  (∀ d, getOrDefault T_int "timeout" d
      (exec ([OpSet T_string "timeout" "soon"]
             ++ OpSet T_int "timeout" 60%Z
             :: [OpSet T_bool "debug" true; OpRemove "name"; OpGet T_int "port"])
            Config_new) = Returns 60%Z) ∧
  (∀ T2, decay T2 ≠ decay T_int →
     get T2 "timeout"
      (exec ([OpSet T_string "timeout" "soon"]
             ++ OpSet T_int "timeout" 60%Z
             :: [OpSet T_bool "debug" true; OpRemove "name"; OpGet T_int "port"])
            Config_new) = Throws TypeMismatchError).
Proof.
  apply (last_set_decides [OpSet T_string "timeout" "soon"]
           [OpSet T_bool "debug" true; OpRemove "name"; OpGet T_int "port"]
           Config_new T_int "timeout" 60%Z).
  repeat constructor.
Defined.

(** X2. How [get] ends on a store built by calls from a new one: with the
    key-not-found error when the key is absent, and on a present key
    either with the type-mismatch error or with a value.  The cast in
    [as<T>()] is never applied to a null pointer or to an object of
    another type. *)
Theorem get_on_reachable_store (ops : list op) (T : cpp_type) (k : string) :
  (has k (exec ops Config_new) = false ∧
     get T k (exec ops Config_new) = Throws (KeyNotFoundError k)) ∨
  (has k (exec ops Config_new) = true ∧
     get T k (exec ops Config_new) = Throws TypeMismatchError) ∨
  (has k (exec ops Config_new) = true ∧
     ∃ v, get T k (exec ops Config_new) = Returns v).
Proof.
  unfold get, has.
  destruct (values_ (exec ops Config_new) !! k) as [cv|] eqn:E; [|by left].
  right. destruct (wf_exec ops k cv E) as (T1 & v & ->).
  destruct (decide (decay T = decay T1)) as [e|ne].
  - right. split; [done|]. unfold as_, ConfigValue_of; simpl.
    destruct (decide _) as [ne|_].
    + exfalso. apply ne. by apply typeid_decay_inj.
    + clear E. revert v. rewrite <- e. intros v. exists v.
      change (deref_static_cast (decay T) (Some (Object (decay T) v)) = Returns v).
      apply deref_static_cast_same.
  - left. split; [done|]. by apply as_of_mismatch.
Qed.

(** X3. Every entry of a store built by calls from a new one was written by
    [set]: its pointer is not null, the object it points to has exactly the
    type its tag names, that type is a decayed one, and the tag is never
    the [void] tag of a default-constructed entry. *)
Theorem reachable_entry_typed (ops : list op) (k : string) (cv : ConfigValue) :
  values_ (exec ops Config_new) !! k = Some cv →
  ∃ (D : obj_type) (v : den D),
    data_ cv = Some (Object D v) ∧
    type_ cv = TypeIndex D ∧
    decay (Obj D) = D ∧
    type_ cv ≠ type_ ConfigValue_default.
Proof.
  intros E. destruct (wf_exec ops k cv E) as (T & v & ->).
  exists (decay T), v. split; [done|]. split; [apply typeid_decay|].
  split; [apply decay_idemp|].
  unfold ConfigValue_of, ConfigValue_default; simpl. intros [= H].
  rewrite remove_cv_decay in H. clear E. revert v. rewrite H. by intros [].
Qed.

Lemma reachable_entry_typed_witness :
  ∃ (D : obj_type) (v : den D),
    data_ (ConfigValue_of T_const_int_lref 60%Z) = Some (Object D v) ∧
    type_ (ConfigValue_of T_const_int_lref 60%Z) = TypeIndex D ∧
    decay (Obj D) = D ∧
    type_ (ConfigValue_of T_const_int_lref 60%Z) ≠ type_ ConfigValue_default.
Proof.
  apply (reachable_entry_typed
           [OpSet T_string "timeout" "soon"; OpSet T_const_int_lref "timeout" 60%Z;
            OpRemove "debug"] "timeout" (ConfigValue_of T_const_int_lref 60%Z)).
  by vm_compute.
Defined.

Lemma KeyNotFoundError_eq_iff (k k' : string) :
  KeyNotFoundError k = KeyNotFoundError k' ↔ c_str k = c_str k'.
Proof.
  rewrite !KeyNotFoundError_what. split.
  - intros [= H]. exact H.
  - by intros ->.
Qed.

(** X4. The two errors of [get] on any store: the key-not-found error is
    thrown exactly for an absent key, and its message carries the key as
    a C string, that is, up to the key's first NUL character; the
    type-mismatch error is thrown only for a present key; and [get]
    throws nothing else. *)
Theorem get_errors (c : Config) (T : cpp_type) (k : string) :
  (∀ k', get T k c = Throws (KeyNotFoundError k') ↔
         has k c = false ∧ c_str k' = c_str k) ∧
  (get T k c = Throws TypeMismatchError → has k c = true) ∧
  (∀ e, get T k c = Throws e → e = KeyNotFoundError k ∨ e = TypeMismatchError).
Proof.
  unfold get, has. destruct (values_ c !! k) as [cv|].
  - split; [|split].
    + intros k'. split; [|by intros [? _]].
      intros H. by apply as_not_KeyNotFound in H.
    + done.
    + intros e. unfold as_. destruct (decide _) as [_|_].
      * intros [= <-]. by right.
      * unfold deref_static_cast. destruct (data_ cv) as [[o v]|]; [|done].
        by destruct (decide _).
  - split; [|split].
    + intros k'. split.
      * intros H. split; [done|]. symmetry. apply KeyNotFoundError_eq_iff.
        congruence.
      * intros [_ H%KeyNotFoundError_eq_iff]. by rewrite H.
    + intros H. exfalso. apply (KeyNotFound_not_TypeMismatch k). congruence.
    + intros e [= <-]. by left.
Qed.

(** A key with an embedded NUL is reported by the same message as its
    prefix. *)
Example key_with_nul_message :
  KeyNotFoundError ("a" +:+ String Ascii.zero "b") = KeyNotFoundError "a" ∧
  KeyNotFoundError "a" = runtime_error "Key not found: a".
Proof. split; reflexivity. Qed.

(** X5. Writes to one key absorb each other: a [set] overwrites an earlier
    [set] or [remove] of the same key, a [remove] undoes a [set], and a
    second [remove] changes nothing. *)
Theorem same_key_absorption (c : Config) (k : string) (T T' : cpp_type)
    (v : den (decay T)) (v' : den (decay T')) :
  set T k v (set T' k v' c) = set T k v c ∧
  set T k v (remove k c) = set T k v c ∧
  remove k (set T k v c) = remove k c ∧
  remove k (remove k c) = remove k c.
Proof.
  rewrite !set_insert. unfold remove; simpl. repeat split; f_equal.
  - apply insert_insert_eq.
  - apply insert_delete_eq.
  - apply delete_insert_eq.
  - apply delete_delete_eq.
Qed.

(** X6. Calls on different keys commute: the store after two writes or
    removals of distinct keys does not depend on their order. *)
Theorem distinct_keys_commute (c : Config) (k k' : string) (T T' : cpp_type)
    (v : den (decay T)) (v' : den (decay T')) :
  k ≠ k' →
  set T k v (set T' k' v' c) = set T' k' v' (set T k v c) ∧
  set T k v (remove k' c) = remove k' (set T k v c) ∧
  remove k (remove k' c) = remove k' (remove k c).
Proof.
  intros Hne. rewrite !set_insert. unfold remove; simpl. repeat split; f_equal.
  - by apply insert_insert_ne.
  - symmetry. by apply delete_insert_ne.
  - apply delete_delete.
Qed.

Lemma distinct_keys_commute_witness :
  set T_int "timeout" 60%Z (set T_bool "debug" true Config_new)
    = set T_bool "debug" true (set T_int "timeout" 60%Z Config_new) ∧
  set T_int "timeout" 60%Z (remove "debug" Config_new)
    = remove "debug" (set T_int "timeout" 60%Z Config_new) ∧
  remove "timeout" (remove "debug" Config_new)
    = remove "debug" (remove "timeout" Config_new).
Proof.
  apply (distinct_keys_commute Config_new "timeout" "debug" T_int T_bool 60%Z true).
  by vm_compute.
Defined.

(** ** RaiiWrapper *)

Lemma pending_insert_fresh (m : gmap nat RaiiWrapper) (a : nat) (w : RaiiWrapper) :
  m !! a = None → pending (<[a := w]> m) ≡ₚ RaiiWrapper_destroy w ++ pending m.
Proof. intros H. unfold pending. by rewrite map_to_list_insert. Qed.

Lemma pending_delete (m : gmap nat RaiiWrapper) (a : nat) (w : RaiiWrapper) :
  m !! a = Some w → RaiiWrapper_destroy w ++ pending (delete a m) ≡ₚ pending m.
Proof.
  intros H. unfold pending. by rewrite <- (map_to_list_delete m a w H).
Qed.

Lemma pending_update (m : gmap nat RaiiWrapper) (a : nat) (w w' : RaiiWrapper) :
  m !! a = Some w →
  RaiiWrapper_destroy w ++ pending (<[a := w']> m)
    ≡ₚ RaiiWrapper_destroy w' ++ pending m.
Proof.
  intros H. rewrite <- (insert_delete_eq m).
  rewrite pending_insert_fresh by apply lookup_delete_eq.
  rewrite <- (pending_delete m a w H). solve_Permutation.
Qed.

Lemma pending_empty : pending ∅ = [].
Proof. unfold pending. by rewrite map_to_list_empty. Qed.

(** Every operation keeps the balance: the calls owed and the calls made
    afterwards are those before, plus what a constructor took in. *)
Lemma raii_step_balance (o : raii_op) (s s' : raii_state) :
  raii_step o s = Some s' →
  pending (objects s') ++ released s'
    ≡ₚ acquired [o] ++ pending (objects s) ++ released s.
Proof.
  destruct s as [m rel].
  destruct o as [a r d|a b|a b|a|a]; simpl.
  - destruct (m !! a) eqn:Ea; [done|]. intros [= <-]; simpl.
    rewrite pending_insert_fresh by done.
    unfold RaiiWrapper_destroy, makeRaiiWrapper; simpl.
    by rewrite (right_id_L [] (++)), (assoc_L (++)).
  - destruct (m !! a) eqn:Ea; [done|].
    destruct (m !! b) as [other|] eqn:Eb; [|done]. intros [= <-]; simpl.
    assert (a ≠ b) as Hab by congruence.
    rewrite pending_insert_fresh by (by rewrite lookup_insert_ne).
    pose proof (pending_update m b other (MkRaiiWrapper nullptr MovedFrom) Eb) as H.
    by rewrite <- H.
  - destruct (m !! a) as [this|] eqn:Ea; [|done].
    destruct (m !! b) as [other|] eqn:Eb; [|done].
    destruct (decide (a ≠ b)) as [Hab|_]; [|by intros [= <-]].
    intros [= <-]; simpl.
    pose proof (pending_update m b other (MkRaiiWrapper nullptr MovedFrom) Eb) as H1.
    pose proof (pending_update (<[b := MkRaiiWrapper nullptr MovedFrom]> m) a this
                  (MkRaiiWrapper (resource_ other) (deleter_ other))) as H2.
    rewrite lookup_insert_ne in H2 by done. specialize (H2 Ea).
    change (RaiiWrapper_destroy (MkRaiiWrapper nullptr MovedFrom)) with (@nil deleter_call) in H1.
    change (RaiiWrapper_destroy (MkRaiiWrapper (resource_ other) (deleter_ other)))
      with (RaiiWrapper_destroy other) in H2.
    rewrite H1 in H2. simpl in H2. rewrite <- H2.
    change (if bool_decide (resource_ this ≠ nullptr)
            then [(deleter_ this, resource_ this)] else [])
      with (RaiiWrapper_destroy this).
    solve_Permutation.
  - destruct (m !! a) as [w|] eqn:Ea; [|done].
    unfold RaiiWrapper_reset. case_bool_decide as Hn; intros [= <-]; simpl.
    + pose proof (pending_update m a w (MkRaiiWrapper nullptr (deleter_ w)) Ea) as H.
      change (RaiiWrapper_destroy (MkRaiiWrapper nullptr (deleter_ w)))
        with (@nil deleter_call) in H.
      unfold RaiiWrapper_destroy in H at 1. rewrite bool_decide_eq_true_2 in H by done.
      simpl in H. rewrite <- H. solve_Permutation.
    + rewrite (right_id_L [] (++)). by rewrite insert_id.
  - destruct (m !! a) as [w|] eqn:Ea; [|done]. intros [= <-]; simpl.
    rewrite <- (pending_delete m a w Ea). solve_Permutation.
Qed.

Lemma acquired_cons (o : raii_op) (rest : list raii_op) :
  acquired (o :: rest) = acquired [o] ++ acquired rest.
Proof. unfold acquired. rewrite !bind_cons. simpl. by rewrite (right_id_L [] (++)). Qed.

Lemma raii_run_balance (ops : list raii_op) (s s' : raii_state) :
  raii_run ops s = Some s' →
  pending (objects s') ++ released s'
    ≡ₚ acquired ops ++ pending (objects s) ++ released s.
Proof.
  revert s. induction ops as [|o rest IH]; intros s; simpl.
  - by intros [= ->].
  - destruct (raii_step o s) as [s1|] eqn:E; [|done]. intros H.
    rewrite (IH s1 H), (raii_step_balance o s s1 E), acquired_cons.
    solve_Permutation.
Qed.

Lemma raii_run_init_balance (ops : list raii_op) (s : raii_state) :
  raii_run ops raii_init = Some s →
  pending (objects s) ++ released s ≡ₚ acquired ops.
Proof.
  intros H. rewrite (raii_run_balance ops raii_init s H). simpl.
  by rewrite pending_empty, !(right_id_L [] (++)).
Qed.

Lemma acquired_live (ops : list raii_op) (c : deleter_call) :
  c ∈ acquired ops → ∃ d r, c = (Live d, r) ∧ r ≠ nullptr.
Proof.
  unfold acquired. rewrite list_elem_of_bind. intros (o & Hc & _).
  destruct o as [a r d| | | |]; try by apply elem_of_nil in Hc.
  case_bool_decide; [|by apply elem_of_nil in Hc].
  apply list_elem_of_singleton in Hc as ->. by exists d, r.
Qed.

Lemma pending_holds (m : gmap nat RaiiWrapper) (a : nat) (w : RaiiWrapper) :
  m !! a = Some w → resource_ w ≠ nullptr →
  pending m ≡ₚ (deleter_ w, resource_ w) :: pending (delete a m).
Proof.
  intros H Hn. rewrite <- (pending_delete m a w H).
  unfold RaiiWrapper_destroy. by rewrite bool_decide_eq_true_2.
Qed.

(** X7. When every wrapper of a program has been destroyed, the deleter calls
    made are exactly the non-null resources handed to constructors, each
    with the deleter it was constructed with and each once: nothing is
    leaked and nothing is released twice, however the wrappers were moved,
    move-assigned and reset in between. *)
Theorem all_destroyed_released_once (ops : list raii_op) (s : raii_state) :
  raii_run ops raii_init = Some s →
  objects s = ∅ →
  released s ≡ₚ acquired ops.
Proof.
  intros H Hempty. rewrite <- (raii_run_init_balance ops s H).
  by rewrite Hempty, pending_empty.
Qed.

Lemma all_destroyed_released_once_witness :
  [(Live 1, 200%N); (Live 0, 100%N)] ≡ₚ
  acquired [RNew 1 100 0; RNew 2 200 1; RNew 3 nullptr 2; RMove 4 1; RReset 2;
            RMoveAssign 3 4; RDestroy 1; RDestroy 2; RDestroy 4; RDestroy 3].
Proof.
  apply (all_destroyed_released_once
           [RNew 1 100 0; RNew 2 200 1; RNew 3 nullptr 2; RMove 4 1; RReset 2;
            RMoveAssign 3 4; RDestroy 1; RDestroy 2; RDestroy 4; RDestroy 3]
           {| objects := ∅; released := [(Live 1, 200%N); (Live 0, 100%N)] |});
    by vm_compute.
Defined.

(** X8. Whatever a program does with its wrappers, a deleter is only ever
    called on a non-null resource that was handed to a constructor, and it
    is the deleter handed over with it; a moved-from deleter is never
    called.  Likewise a wrapper that holds a resource holds it with the
    deleter it was constructed with. *)
Theorem releases_use_constructed_deleter (ops : list raii_op) (s : raii_state) :
  raii_run ops raii_init = Some s →
  (∀ c, c ∈ released s →
     c ∈ acquired ops ∧ ∃ d r, c = (Live d, r) ∧ r ≠ nullptr) ∧
  (∀ a w, objects s !! a = Some w → resource_ w ≠ nullptr →
     (deleter_ w, resource_ w) ∈ acquired ops ∧ ∃ d, deleter_ w = Live d).
Proof.
  intros H. pose proof (raii_run_init_balance ops s H) as Hb. split.
  - intros c Hc.
    assert (c ∈ acquired ops) as Hin.
    { rewrite <- Hb. apply elem_of_app. by right. }
    split; [done|]. by apply (acquired_live ops).
  - intros a w Hw Hn.
    assert ((deleter_ w, resource_ w) ∈ acquired ops) as Hin.
    { rewrite <- Hb, (pending_holds _ a w Hw Hn). apply elem_of_app. left. by left. }
    split; [done|].
    destruct (acquired_live _ _ Hin) as (d & r & [= Hd _] & _). by exists d.
Qed.

Lemma releases_use_constructed_deleter_witness :
  (∀ c, c ∈ [(Live 1, 200%N)] →
     c ∈ acquired [RNew 1 100 0; RNew 2 200 1; RMove 3 1; RMoveAssign 1 2; RReset 1] ∧
     ∃ d r, c = (Live d, r) ∧ r ≠ nullptr) ∧
  (∀ a w,
     ({[1 := MkRaiiWrapper nullptr (Live 1); 2 := MkRaiiWrapper nullptr MovedFrom;
        3 := MkRaiiWrapper 100 (Live 0)]} : gmap nat RaiiWrapper) !! a = Some w →
     resource_ w ≠ nullptr →
     (deleter_ w, resource_ w)
       ∈ acquired [RNew 1 100 0; RNew 2 200 1; RMove 3 1; RMoveAssign 1 2; RReset 1] ∧
     ∃ d, deleter_ w = Live d).
Proof.
  assert (raii_run [RNew 1 100 0; RNew 2 200 1; RMove 3 1; RMoveAssign 1 2; RReset 1]
            raii_init
          = Some {| objects := {[1 := MkRaiiWrapper nullptr (Live 1);
                                 2 := MkRaiiWrapper nullptr MovedFrom;
                                 3 := MkRaiiWrapper 100 (Live 0)]};
                    released := [(Live 1, 200%N)] |}) as Hrun by (by vm_compute).
  exact (releases_use_constructed_deleter _ _ Hrun).
Defined.

(** X9. When the resources handed to constructors are pairwise distinct, no
    resource is released twice, and a resource a live wrapper holds has
    not been released and is held by no other wrapper: [get()] never hands
    out a resource some deleter has already been called on. *)
Theorem exclusive_ownership (ops : list raii_op) (s : raii_state) :
  raii_run ops raii_init = Some s →
  NoDup ((acquired ops).*2) →
  NoDup ((released s).*2) ∧
  ∀ a w, objects s !! a = Some w → RaiiWrapper_get w ≠ nullptr →
    (RaiiWrapper_get w ∉ (released s).*2) ∧
    ∀ a' w', a' ≠ a → objects s !! a' = Some w' →
      RaiiWrapper_get w' ≠ RaiiWrapper_get w.
Proof.
  intros H Hnd. pose proof (raii_run_init_balance ops s H) as Hb.
  rewrite <- Hb, fmap_app in Hnd. apply NoDup_app in Hnd as (Hp & Hdisj & Hr).
  split; [done|]. unfold RaiiWrapper_get. intros a w Hw Hn.
  pose proof (pending_holds _ a w Hw Hn) as Hperm.
  split.
  - apply Hdisj. rewrite Hperm. by left.
  - intros a' w' Hne Hw' Heq.
    rewrite Hperm in Hp. simpl in Hp. apply NoDup_cons in Hp as [Hnot _].
    apply Hnot. rewrite <- Heq.
    assert (delete a (objects s) !! a' = Some w') as Hd
      by (by rewrite lookup_delete_ne).
    rewrite (pending_holds _ a' w' Hd) by congruence. by left.
Qed.

Lemma exclusive_ownership_witness :
  NoDup ([(Live 1, 200%N)].*2) ∧
  ∀ a w,
    ({[1 := MkRaiiWrapper nullptr (Live 1); 2 := MkRaiiWrapper nullptr MovedFrom;
       3 := MkRaiiWrapper 100 (Live 0)]} : gmap nat RaiiWrapper) !! a = Some w →
    RaiiWrapper_get w ≠ nullptr →
    (RaiiWrapper_get w ∉ [(Live 1, 200%N)].*2) ∧
    ∀ a' w', a' ≠ a →
      ({[1 := MkRaiiWrapper nullptr (Live 1); 2 := MkRaiiWrapper nullptr MovedFrom;
         3 := MkRaiiWrapper 100 (Live 0)]} : gmap nat RaiiWrapper) !! a' = Some w' →
      RaiiWrapper_get w' ≠ RaiiWrapper_get w.
Proof.
  assert (raii_run [RNew 1 100 0; RNew 2 200 1; RMove 3 1; RMoveAssign 1 2; RReset 1]
            raii_init
          = Some {| objects := {[1 := MkRaiiWrapper nullptr (Live 1);
                                 2 := MkRaiiWrapper nullptr MovedFrom;
                                 3 := MkRaiiWrapper 100 (Live 0)]};
                    released := [(Live 1, 200%N)] |}) as Hrun by (by vm_compute).
  assert (NoDup ((acquired [RNew 1 100 0; RNew 2 200 1; RMove 3 1; RMoveAssign 1 2;
                            RReset 1]).*2)) as Hnd.
  { apply (bool_decide_unpack _). by vm_compute. }
  exact (exclusive_ownership _ _ Hrun Hnd).
Defined.

(** X10. [reset()] hands the resource to the deleter at most once: its calls
    and what the destructor still owes afterwards are what the destructor
    owed before; a second [reset()] does nothing; and the wrapper is empty
    afterwards. *)
Theorem reset_releases_once (w : RaiiWrapper) :
  (RaiiWrapper_reset w).1 ++ RaiiWrapper_destroy (RaiiWrapper_reset w).2
    = RaiiWrapper_destroy w ∧
  RaiiWrapper_destroy (RaiiWrapper_reset w).2 = [] ∧
  RaiiWrapper_reset (RaiiWrapper_reset w).2 = ([], (RaiiWrapper_reset w).2) ∧
  RaiiWrapper_get (RaiiWrapper_reset w).2 = nullptr ∧
  RaiiWrapper_bool (RaiiWrapper_reset w).2 = false.
Proof.
  destruct w as [r d].
  unfold RaiiWrapper_reset, RaiiWrapper_destroy, RaiiWrapper_get, RaiiWrapper_bool;
    simpl.
  destruct (decide (r = nullptr)) as [->|Hn]; [done|].
  rewrite !(bool_decide_eq_true_2 (r ≠ nullptr)) by done. done.
Qed.

(** Moving hands the resource over with its deleter and empties the
    source: the new object owes what the source owed, the source owes
    nothing, and a move assignment first releases what its target held. *)
Theorem move_hands_over (this other : RaiiWrapper) :
  RaiiWrapper_get (RaiiWrapper_move other).1 = RaiiWrapper_get other ∧
  RaiiWrapper_destroy (RaiiWrapper_move other).1 = RaiiWrapper_destroy other ∧
  RaiiWrapper_get (RaiiWrapper_move other).2 = nullptr ∧
  RaiiWrapper_bool (RaiiWrapper_move other).2 = false ∧
  RaiiWrapper_destroy (RaiiWrapper_move other).2 = [] ∧
  (RaiiWrapper_move_assign this other).1.1 = RaiiWrapper_destroy this ∧
  RaiiWrapper_destroy (RaiiWrapper_move_assign this other).1.2
    = RaiiWrapper_destroy other ∧
  RaiiWrapper_destroy (RaiiWrapper_move_assign this other).2 = [].
Proof. by destruct this, other. Qed.

(** The scenarios of the unit tests RaiiWrapperBasicUsage and
    RaiiWrapperMoveSemantics. *)
Example test_RaiiWrapperBasicUsage :
  RaiiWrapper_get (makeRaiiWrapper 4096 0) = 4096%N ∧
  RaiiWrapper_bool (makeRaiiWrapper 4096 0) = true ∧
  raii_run [RNew 1 4096 0] raii_init
    = Some {| objects := {[1 := MkRaiiWrapper 4096 (Live 0)]}; released := [] |} ∧
  raii_run [RNew 1 4096 0; RDestroy 1] raii_init
    = Some {| objects := ∅; released := [(Live 0, 4096%N)] |}.
Proof. repeat split; by vm_compute. Qed.

Example test_RaiiWrapperMoveSemantics :
  raii_run [RNew 1 100 0; RMove 2 1] raii_init
    = Some {| objects := {[1 := MkRaiiWrapper nullptr MovedFrom;
                           2 := MkRaiiWrapper 100 (Live 0)]};
              released := [] |} ∧
  raii_run [RNew 1 100 0; RMove 2 1; RReset 2] raii_init
    = Some {| objects := {[1 := MkRaiiWrapper nullptr MovedFrom;
                           2 := MkRaiiWrapper nullptr (Live 0)]};
              released := [(Live 0, 100%N)] |}.
Proof. split; by vm_compute. Qed.

(** ** Logger *)

Lemma Logger_log_passes (level : LogLevel.t) (format stamp : string) (l : Logger) :
  Logger_log level format stamp l =
  if bool_decide (LogLevel.value (currentLevel_ l) ≤ LogLevel.value level)
  then [log_line level format stamp] else [].
Proof.
  unfold Logger_log. case_decide; case_bool_decide; try done; lia.
Qed.

Lemma logger_step_message (c : logger_call) (l : Logger) :
  is_message c = true →
  logger_step c l =
  (if passes (currentLevel_ l) c then option_list (message_line c) else [], l).
Proof.
  destruct c as [lv|f st|f st|f st|f st]; try done; intros _;
    cbn [logger_step];
    unfold Logger_debug, Logger_info, Logger_warning, Logger_error;
    by rewrite Logger_log_passes.
Qed.

Lemma logger_run_cons (c : logger_call) (rest : list logger_call) (l : Logger) :
  logger_run (c :: rest) l =
  ((logger_step c l).1 ++ (logger_run rest (logger_step c l).2).1,
   (logger_run rest (logger_step c l).2).2).
Proof.
  simpl. destruct (logger_step c l) as [out l1]. simpl.
  by destruct (logger_run rest l1).
Qed.

Lemma logger_run_app (pre post : list logger_call) (l : Logger) :
  logger_run (pre ++ post) l =
  ((logger_run pre l).1 ++ (logger_run post (logger_run pre l).2).1,
   (logger_run post (logger_run pre l).2).2).
Proof.
  revert l. induction pre as [|c pre IH]; intros l.
  - simpl. by destruct (logger_run post l).
  - rewrite <- app_comm_cons, !logger_run_cons, IH. simpl.
    by rewrite (assoc_L (++)).
Qed.

Lemma logger_run_messages (msgs : list logger_call) (l : Logger) :
  Forall (λ c, is_message c = true) msgs →
  logger_run msgs l =
  (omap message_line (filter (λ c, passes (currentLevel_ l) c = true) msgs), l).
Proof.
  induction 1 as [|c rest Hc _ IH]; [done|].
  rewrite logger_run_cons, (logger_step_message c l Hc). simpl. rewrite IH. simpl.
  destruct (passes (currentLevel_ l) c) eqn:Hp.
  - rewrite filter_cons_True by done. simpl.
    destruct c; try done.
  - rewrite filter_cons_False by (by rewrite Hp). done.
Qed.

(** X11. [setLevel] governs the messages that follow it: of the message calls
    made after it, exactly those whose level is not below the level set are
    written, each as its line and in call order, whatever the level was
    before; what was written before is kept. *)
Theorem level_governs_following_messages (pre msgs : list logger_call)
    (level : LogLevel.t) (l : Logger) :
  Forall (λ c, is_message c = true) msgs →
  logger_run (pre ++ CallSetLevel level :: msgs) l =
  ((logger_run pre l).1
     ++ omap message_line (filter (λ c, passes level c = true) msgs),
   MkLogger level).
Proof.
  intros H. rewrite logger_run_app, logger_run_cons. simpl.
  by rewrite (logger_run_messages msgs _ H).
Qed.

Lemma level_governs_following_messages_witness :
  logger_run ([CallDebug "dropped at Info" "12:00:00"]
              ++ CallSetLevel LogLevel.Warning
              :: [CallInfo "starting" "12:00:01"; CallError "failed" "12:00:02";
                  CallDebug "detail" "12:00:03"; CallWarning "slow" "12:00:04"])
             Logger_instance =
  ((logger_run [CallDebug "dropped at Info" "12:00:00"] Logger_instance).1
     ++ omap message_line
          (filter (λ c, passes LogLevel.Warning c = true)
             [CallInfo "starting" "12:00:01"; CallError "failed" "12:00:02";
              CallDebug "detail" "12:00:03"; CallWarning "slow" "12:00:04"]),
   MkLogger LogLevel.Warning).
Proof.
  apply (level_governs_following_messages [CallDebug "dropped at Info" "12:00:00"]
           [CallInfo "starting" "12:00:01"; CallError "failed" "12:00:02";
            CallDebug "detail" "12:00:03"; CallWarning "slow" "12:00:04"]
           LogLevel.Warning Logger_instance).
  by repeat constructor.
Defined.

(** X12. Raising the level only drops lines: for a run of message calls, what
    is written at a higher level is a subsequence of what is written at a
    lower one; at [Debug] every message is written, and at any level every
    [error] message is. *)
Theorem raising_level_only_drops (msgs : list logger_call) (lo hi : LogLevel.t) :
  Forall (λ c, is_message c = true) msgs →
  LogLevel.value lo ≤ LogLevel.value hi →
  (logger_run msgs (MkLogger hi)).1 `sublist_of` (logger_run msgs (MkLogger lo)).1 ∧
  length (logger_run msgs (MkLogger LogLevel.Debug)).1 = length msgs ∧
  (∀ format stamp, logger_run [CallError format stamp] (MkLogger hi)
                   = ([log_line LogLevel.Error format stamp], MkLogger hi)).
Proof.
  intros H Hle. split; [|split].
  - rewrite !(logger_run_messages msgs _ H). simpl.
    induction H as [|c rest Hc _ IH]; [done|].
    destruct (passes hi c) eqn:Hhi.
    + assert (passes lo c = true) as Hlo.
      { unfold passes in *. destruct (message_level c); [|done].
        apply bool_decide_eq_true in Hhi. apply bool_decide_eq_true. lia. }
      rewrite !filter_cons_True by done. simpl.
      destruct (message_line c); [by apply sublist_skip | done].
    + rewrite (filter_cons_False _ c) by (by rewrite Hhi).
      destruct (passes lo c) eqn:Hlo.
      * rewrite filter_cons_True by done. simpl.
        destruct (message_line c); [by apply sublist_cons | done].
      * by rewrite filter_cons_False by (by rewrite Hlo).
  - rewrite (logger_run_messages msgs _ H). simpl.
    induction H as [|c rest Hc _ IH]; [done|].
    rewrite filter_cons_True.
    + destruct c; try done; simpl; f_equal; apply IH.
    + unfold passes. unfold is_message in Hc. destruct (message_level c); [|done].
      apply bool_decide_eq_true. simpl. lia.
  - intros format stamp. simpl. unfold Logger_error. rewrite Logger_log_passes.
    rewrite bool_decide_eq_true_2; [done|]. simpl. destruct hi; simpl; lia.
Qed.

Lemma raising_level_only_drops_witness :
  (logger_run [CallInfo "starting" "12:00:01"; CallError "failed" "12:00:02";
               CallDebug "detail" "12:00:03"] (MkLogger LogLevel.Error)).1
    `sublist_of`
  (logger_run [CallInfo "starting" "12:00:01"; CallError "failed" "12:00:02";
               CallDebug "detail" "12:00:03"] (MkLogger LogLevel.Info)).1 ∧
  length (logger_run [CallInfo "starting" "12:00:01"; CallError "failed" "12:00:02";
                      CallDebug "detail" "12:00:03"] (MkLogger LogLevel.Debug)).1
    = length [CallInfo "starting" "12:00:01"; CallError "failed" "12:00:02";
              CallDebug "detail" "12:00:03"] ∧
  (∀ format stamp, logger_run [CallError format stamp] (MkLogger LogLevel.Error)
                   = ([log_line LogLevel.Error format stamp], MkLogger LogLevel.Error)).
Proof.
  apply (raising_level_only_drops
           [CallInfo "starting" "12:00:01"; CallError "failed" "12:00:02";
            CallDebug "detail" "12:00:03"] LogLevel.Info LogLevel.Error).
  - by repeat constructor.
  - simpl. lia.
Defined.

(** The scenario of the unit test LoggerLevels. *)
Example test_LoggerLevels :
  logger_run [CallSetLevel LogLevel.Debug;
              CallDebug "Debug message" "00:00:00"; CallInfo "Info message" "00:00:00";
              CallWarning "Warning message" "00:00:00";
              CallError "Error message" "00:00:00";
              CallSetLevel LogLevel.Error;
              CallDebug "This debug message should not appear" "00:00:01";
              CallError "This error message should appear" "00:00:01";
              CallSetLevel LogLevel.Info] Logger_instance
  = ([log_line LogLevel.Debug "Debug message" "00:00:00";
      log_line LogLevel.Info "Info message" "00:00:00";
      log_line LogLevel.Warning "Warning message" "00:00:00";
      log_line LogLevel.Error "Error message" "00:00:00";
      log_line LogLevel.Error "This error message should appear" "00:00:01"],
     Logger_instance).
Proof. by vm_compute. Qed.

End core.
